(** * libLabel.js: the library checklist component

    A shallow embedding of
    [App/frontend/src/components/modules/libLabel.js]: the three fixed
    lists of library names, the checkbox factory [CustomInput] with its
    [changeHandler], and the component [Label] with the effect that
    re-applies the checked state after a render.

    Strings are [string] (the labels are UTF-8 literals; JavaScript's [!==]
    on two strings is inequality of their contents).  Arrays are lists; the
    spread [[...xs, x]] is [xs ++ [x]] and [xs.filter(p)] is [filter p xs].
    The page is the list of its checkbox elements in document order. *)

From stdpp Require Import gmap strings list sorting.

Local Open Scope string_scope.
Local Open Scope list_scope.

(** ** The three fixed lists (lines 3-7) *)

Definition libName1 : list string :=
  ["전체도서관"; "강남도서관"; "강동도서관"; "강서도서관"; "개포도서관"; "고덕학습관"; "고척도서관"].

Definition libName2 : list string :=
  ["구로도서관"; "남산도서관"; "노원학습관"; "도봉도서관"; "동대문도서관"; "동작도서관"; "마포학습관"].

Definition libName3 : list string :=
  ["서대문도서관"; "송파도서관"; "양천도서관"; "영등포도서관"; "용산도서관"; "정독도서관"; "종로도서관"].

(** Every label that gets a checkbox, in document order. *)
Definition labels : list string := libName1 ++ libName2 ++ libName3.

(** ** Events and rendered nodes *)

(** What the handler reads of a change event: [e.target.checked] and
    [e.target.id]. *)
Record ChangeEvent : Type := mkEvent {
  target_checked : bool;
  target_id : string
}.

(** The [<input type="checkbox">] that [CustomInput] returns, with the [key]
    of the [<div>] around it.  [A] is whatever a call of the setter is. *)
Record CheckboxNode (A : Type) : Type := mkNode {
  key : nat;
  id : string;
  onChange : ChangeEvent → A
}.

Arguments mkNode {A} _ _ _.
Arguments key {A} _.
Arguments id {A} _.
Arguments onChange {A} _ _.

(** ** [changeHandler] (lines 12-19)

    The closure captures [setCheckedInputs] and [checkedInputs] of the call
    of [CustomInput] that created it. *)
Definition changeHandler {A : Type} (setCheckedInputs : list string → A)
    (checkedInputs : list string) (checked : bool) (id : string) : A :=
  if checked then
    setCheckedInputs (checkedInputs ++ [id])
  else
    setCheckedInputs (filter (λ el, el ≠ id) checkedInputs).

(** ** [CustomInput] (lines 10-35) *)
Definition CustomInput {A : Type} (v : string) (i : nat)
    (setCheckedInputs : list string → A) (checkedInputs : list string)
    : CheckboxNode A :=
  {| key := i;
     id := v;
     onChange := λ e,
       changeHandler setCheckedInputs checkedInputs (target_checked e) (target_id e) |}.

(** ** The page *)

(** A checkbox element of the page: its [id] attribute and its [checked]
    property. *)
Record Element : Type := mkElement {
  el_id : string;
  el_checked : bool
}.

Abbreviation Document := (list Element).

(** [document.getElementById(id)]: the first element with that ID, as its
    position in the page, [None] for JavaScript's [null].  An element whose
    [id] attribute is empty has no ID, so the lookup of the empty string is
    [null] on every page. *)
Definition getElementById (doc : Document) (id : string) : option nat :=
  if decide (id = "") then None
  else fst <$> list_find (λ e, el_id e = id) doc.

(** [x] is the ID of an element of the page. *)
Definition has_element (doc : Document) (x : string) : Prop :=
  x ≠ "" ∧ x ∈ el_id <$> doc.

(** [a.checked = b] for the element at position [a]. *)
Definition set_checked (b : bool) (e : Element) : Element :=
  {| el_id := el_id e; el_checked := b |}.

Definition assign_checked (doc : Document) (a : nat) (b : bool) : Document :=
  alter (set_checked b) a doc.

(** What the page shows for the checkbox with a given [id]. *)
Definition shows (doc : Document) (id : string) : option bool :=
  a ← getElementById doc id; el_checked <$> doc !! a.

(** How a pass over the page ends: normally, or with an uncaught
    [TypeError]; either way with the page as the pass left it. *)
Inductive Outcome (S : Type) : Type :=
  | Done (s : S)
  | Thrown (s : S).

Arguments Done {S} _.
Arguments Thrown {S} _.

(** ** The effect of [Label] (lines 39-46)

    [checkedInputs.map(...)] calls the callback on each element from left to
    right.  For an [id] without an element [a] is [null] and
    [a.checked = true] throws, which ends the [map]. *)
Fixpoint resync (ids : list string) (doc : Document) : Outcome Document :=
  match ids with
  | [] => Done doc
  | id :: rest =>
      match getElementById doc id with
      | None => Thrown doc
      | Some a => resync rest (assign_checked doc a true)
      end
  end.

Definition useEffect (checkedInputs : list string) (doc : Document)
    : Outcome Document :=
  if decide (length checkedInputs ≠ 0) then resync checkedInputs doc
  else Done doc.

(** ** [Label] (lines 37-73)

    A render registers the effect and returns the three columns. *)
Record Rendered (A : Type) : Type := mkRendered {
  effect : Document → Outcome Document;
  columns : list (list (CheckboxNode A))
}.

Arguments mkRendered {A} _ _.
Arguments effect {A} _ _.
Arguments columns {A} _.

Definition Label {A : Type} (checkedInputs : list string)
    (setCheckedInputs : list string → A) : Rendered A :=
  {| effect := useEffect checkedInputs;
     columns :=
       [ imap (λ i val, CustomInput val i setCheckedInputs checkedInputs) libName1;
         imap (λ i val, CustomInput val (i + 100) setCheckedInputs checkedInputs) libName2;
         imap (λ i val, CustomInput val (i + 100) setCheckedInputs checkedInputs) libName3 ] |}.

(** The checkbox nodes of a render in document order. *)
Definition inputs {A : Type} (r : Rendered A) : list (CheckboxNode A) :=
  concat (columns r).

(** ** The parent, the framework and the user

    [Label] is driven by the component that owns the selection, by React,
    which commits a render to the page and then runs the effect, and by the
    browser, which flips a clicked checkbox before it reports the change. *)

(** Modelled from the spec: the parent component is missing from the
    sources; its setter replaces the current selection by its argument. *)
Definition setSelected (new : list string) : list string := new.

(** The selection the parent holds and the page as it stands. *)
Record Page : Type := mkPage {
  selection : list string;
  document : Document
}.

Definition with_selection (sel : list string) (o : Outcome Document)
    : Outcome Page :=
  match o with
  | Done doc => Done (mkPage sel doc)
  | Thrown doc => Thrown (mkPage sel doc)
  end.

(** First commit: one fresh element per node, unchecked, as the inputs carry
    neither [checked] nor [defaultChecked]. *)
Definition create_elements {A : Type} (nodes : list (CheckboxNode A)) : Document :=
  (λ n, mkElement (id n) false) <$> nodes.

(** Later commits: the nodes come at the same places with the same keys, so
    every element is kept and only its attributes are patched; the [checked]
    property is not an attribute of these inputs and stays as it is. *)
Definition patch_elements {A : Type} (nodes : list (CheckboxNode A))
    (doc : Document) : Document :=
  zip_with (λ n e, mkElement (id n) (el_checked e)) nodes doc.

Definition mount (checkedInputs : list string) : Outcome Page :=
  let r := Label checkedInputs setSelected in
  with_selection checkedInputs (effect r (create_elements (inputs r))).

Definition rerender (checkedInputs : list string) (doc : Document)
    : Outcome Page :=
  let r := Label checkedInputs setSelected in
  with_selection checkedInputs (effect r (patch_elements (inputs r) doc)).

(** The user clicks the checkbox at position [a]: the browser flips it and
    fires the change event at the handler of the current render, the parent
    takes the new selection and renders again. *)
Definition click (a : nat) (page : Page) : Outcome Page :=
  let r := Label (selection page) setSelected in
  match document page !! a, inputs r !! a with
  | Some e, Some node =>
      let e' := set_checked (negb (el_checked e)) e in
      let sel' := onChange node (mkEvent (el_checked e') (el_id e')) in
      rerender sel' (<[a := e']> (document page))
  | _, _ => Done page
  end.

(** The same for the checkbox with a given label. *)
Definition click_label (l : string) (page : Page) : Outcome Page :=
  match getElementById (document page) l with
  | Some a => click a page
  | None => Done page
  end.

Fixpoint clicks (trace : list string) (page : Page) : Outcome Page :=
  match trace with
  | [] => Done page
  | l :: rest =>
      match click_label l page with
      | Done page' => clicks rest page'
      | Thrown page' => Thrown page'
      end
  end.

(** A mount with a given selection followed by clicks. *)
Definition session (checkedInputs : list string) (trace : list string)
    : Outcome Page :=
  match mount checkedInputs with
  | Done page => clicks trace page
  | Thrown page => Thrown page
  end.

(** ** Reading a trace of clicks *)

(** The position in the trace of the first and of the last click on [l].
    Counted from a mount with the empty selection, the first click on [l] is
    the first time it is checked, and while [l] is checked its last click is
    the one that checked it. *)
Fixpoint first_click (l : string) (trace : list string) : option nat :=
  match trace with
  | [] => None
  | x :: rest => if decide (x = l) then Some 0 else S <$> first_click l rest
  end.

Fixpoint last_click (l : string) (trace : list string) : option nat :=
  match trace with
  | [] => None
  | x :: rest =>
      match last_click l rest with
      | Some n => Some (S n)
      | None => if decide (x = l) then Some 0 else None
      end
  end.

(** How often [l] was clicked. *)
Definition click_count (l : string) (trace : list string) : nat :=
  length (filter (λ x, x = l) trace).

(** [x] comes before [y] under the timestamps [t]. *)
Definition earlier (t : string → option nat) (x y : string) : Prop :=
  ∃ tx ty, t x = Some tx ∧ t y = Some ty ∧ tx < ty.

Definition ordered_by (t : string → option nat) (s : list string) : Prop :=
  StronglySorted (earlier t) s.

(** The number of times [l] occurs in a selection. *)
Definition occurrences (l : string) (s : list string) : nat :=
  length (filter (λ x, x = l) s).

(** ** Arrays as objects

    [checkedInputs] is a reference to an array object.  The store below
    keeps the arrays by reference, to see which of them a call touches. *)

Definition Ref : Type := nat.
Abbreviation Store := (gmap nat (list string)).

(** A new array object. *)
Definition alloc (h : Store) (arr : list string) : Ref * Store :=
  let r := fresh (dom h) in (r, <[r := arr]> h).

(** The array literal [[...xs, x]]. *)
Definition spread_with (xs : Ref) (x : string) (h : Store) : option (Ref * Store) :=
  arr ← h !! xs; Some (alloc h (arr ++ [x])).

(** [xs.filter((el) => el !== x)]. *)
Definition filter_out (xs : Ref) (x : string) (h : Store) : option (Ref * Store) :=
  arr ← h !! xs; Some (alloc h (filter (λ el, el ≠ x) arr)).

(** [changeHandler] on references: the call of the setter it makes and the
    store it leaves. *)
Definition changeHandler_ref {A : Type} (setCheckedInputs : Ref → A)
    (checkedInputs : Ref) (checked : bool) (id : string) (h : Store)
    : option (A * Store) :=
  if checked then
    '(r, h') ← spread_with checkedInputs id h; Some (setCheckedInputs r, h')
  else
    '(r, h') ← filter_out checkedInputs id h; Some (setCheckedInputs r, h').

(** ** Pages the component leaves behind

    The page holds the checkboxes of [Label] and nothing else, and every
    label of the selection shows as checked: what a render that ended
    normally leaves. *)
Definition synced (page : Page) : Prop :=
  el_id <$> document page = labels ∧
  ∀ l, l ∈ selection page → shows (document page) l = Some true.

(** ** Describing a pass of the effect *)

(** The state an outcome carries. *)
Definition left_by {S : Type} (o : Outcome S) : S :=
  match o with
  | Done s => s
  | Thrown s => s
  end.

(** The page with [checked] set on the first element of each of the given
    ids and everything else as it is. *)
Definition check_all (ids : list string) (doc : Document) : Document :=
  imap (λ j e,
          if decide (el_id e ∈ ids ∧ getElementById doc (el_id e) = Some j)
          then set_checked true e else e) doc.

(** * Properties *)

(** ** The fixed lists *)

Lemma labels_NoDup : NoDup labels.
Proof. compute_done. Qed.

Lemma labels_nonempty : "" ∉ labels.
Proof. compute_done. Qed.

Lemma label_nonempty (l : string) : l ∈ labels → l ≠ "".
Proof. intros Hl ->. by apply labels_nonempty. Qed.

(** ** The handler on lists *)

Lemma occurrences_app l (s1 s2 : list string) :
  occurrences l (s1 ++ s2) = occurrences l s1 + occurrences l s2.
Proof. unfold occurrences. by rewrite filter_app, length_app. Qed.

Lemma occurrences_filter_ne l x (s : list string) :
  x ≠ l → occurrences x (filter (λ el, el ≠ l) s) = occurrences x s.
Proof.
  intros Hne. unfold occurrences. induction s as [|y s IH]; [done|].
  destruct (decide (y = l)) as [->|Hy].
  - rewrite (filter_cons_False (λ el, el ≠ l)) by (intros ?; done).
    rewrite (filter_cons_False (λ z, z = x)) by done. exact IH.
  - rewrite (filter_cons_True (λ el, el ≠ l)) by done.
    rewrite !(filter_cons (λ z, z = x)). destruct (decide (y = x)); simpl; by rewrite IH.
Qed.

Lemma occurrences_filter_eq l (s : list string) :
  occurrences l (filter (λ el, el ≠ l) s) = 0.
Proof.
  unfold occurrences. rewrite list_filter_filter.
  induction s as [|y s IH]; [done|].
  rewrite filter_cons_False; [exact IH|]. intros [-> ?]. done.
Qed.

Lemma occurrences_singleton l : occurrences l [l] = 1.
Proof. unfold occurrences. by rewrite filter_cons_True. Qed.

Lemma filter_ne_absent l (s : list string) :
  l ∉ s → filter (λ el, el ≠ l) s = s.
Proof.
  intros Hl. induction s as [|y s IH]; [done|].
  apply not_elem_of_cons in Hl as [Hne Hl].
  rewrite filter_cons_True by done. by rewrite IH.
Qed.

Lemma filter_ne_not_elem l (s : list string) : l ∉ filter (λ el, el ≠ l) s.
Proof. rewrite list_elem_of_filter. intros [? ?]. done. Qed.

(** C5.  A change event with [checked = true] for [l] calls the setter with
    the old selection followed by [l], whatever the selection and the label;
    the same holds for the [onChange] of the checkbox of [l]; from the empty
    selection, checking "강남도서관" gives the one-element selection. *)
Theorem check_appends_label {A : Type} (setCheckedInputs : list string → A)
    (s : list string) (l : string) (i : nat) :
  changeHandler setCheckedInputs s true l = setCheckedInputs (s ++ [l]) ∧
  onChange (CustomInput l i setCheckedInputs s) (mkEvent true l)
    = setCheckedInputs (s ++ [l]) ∧
  changeHandler setCheckedInputs [] true "강남도서관"
    = setCheckedInputs ["강남도서관"].
Proof. repeat split. Qed.

(** C6.  A change event with [checked = false] for [l] calls the setter with
    the old selection without its occurrences of [l]: [l] is gone, every
    other label occurs as often as before, and what is left is in the order
    it had; unchecking "강남도서관" in ["강남도서관"; "노원학습관"] leaves
    ["노원학습관"]. *)
Theorem uncheck_removes_label {A : Type} (setCheckedInputs : list string → A)
    (s : list string) (l : string) (i : nat) :
  let s' := filter (λ el, el ≠ l) s in
  changeHandler setCheckedInputs s false l = setCheckedInputs s' ∧
  onChange (CustomInput l i setCheckedInputs s) (mkEvent false l)
    = setCheckedInputs s' ∧
  (l ∉ s') ∧
  (∀ x, x ≠ l → occurrences x s' = occurrences x s) ∧
  s' `sublist_of` s ∧
  changeHandler setCheckedInputs ["강남도서관"; "노원학습관"] false "강남도서관"
    = setCheckedInputs ["노원학습관"].
Proof.
  intros s'. split_and!; try reflexivity.
  - apply filter_ne_not_elem.
  - intros x Hx. by apply occurrences_filter_ne.
  - apply sublist_filter.
Qed.

(** C9.  The [id] of a checkbox is its label and its [key] is the index it
    was given; the handler of a checkbox does not depend on that index, and
    a change event of the checkbox (whose target carries that [id]) runs
    [changeHandler] with the label.  In a render the [id]s are the 21
    labels, the keys are 0-6 and twice 100-106, and the elements created
    for them carry the labels as their [id]s. *)
Theorem selection_tracks_label_not_index {A : Type}
    (setCheckedInputs : list string → A) (s : list string) :
  (∀ v i, id (CustomInput v i setCheckedInputs s) = v ∧
          key (CustomInput v i setCheckedInputs s) = i) ∧
  (∀ v i j e, onChange (CustomInput v i setCheckedInputs s) e
              = onChange (CustomInput v j setCheckedInputs s) e) ∧
  (∀ v i c, onChange (CustomInput v i setCheckedInputs s) (mkEvent c v)
            = changeHandler setCheckedInputs s c v) ∧
  id <$> inputs (Label s setCheckedInputs) = labels ∧
  key <$> inputs (Label s setCheckedInputs)
    = seq 0 7 ++ seq 100 7 ++ seq 100 7 ∧
  el_id <$> create_elements (inputs (Label s setCheckedInputs)) = labels.
Proof. repeat split. Qed.

(** C4, as stated, fails: with "강남도서관" already in the selection, a check
    followed by an uncheck removes the earlier copy as well. *)
Lemma check_uncheck_drops_earlier_copy :
  ∃ (s : list string) (l : string),
    changeHandler setSelected (changeHandler setSelected s true l) false l ≠ s.
Proof. exists ["강남도서관"], "강남도서관". vm_compute. discriminate. Qed.

(** C4, amended.  For a label [l] that does not occur in [s], a check of
    [l] followed by an uncheck of [l] gives [s] back, whatever other labels
    [s] holds. *)
Theorem check_uncheck_round_trip (s : list string) (l : string) :
  l ∉ s →
  changeHandler setSelected (changeHandler setSelected s true l) false l = s.
Proof.
  intros Hl. unfold changeHandler, setSelected.
  rewrite filter_app, filter_ne_absent by done.
  rewrite filter_cons_False by (intros ?; done). by rewrite app_nil_r.
Qed.

(** The round trip on ["노원학습관"] with "강남도서관". *)
Lemma check_uncheck_round_trip_witness :
  ("강남도서관" ∉ ["노원학습관"]) ∧
  changeHandler setSelected
    (changeHandler setSelected ["노원학습관"] true "강남도서관") false "강남도서관"
  = ["노원학습관"].
Proof.
  assert (H : "강남도서관" ∉ ["노원학습관"]) by (by apply not_elem_of_cons; split; [|apply not_elem_of_nil]).
  split; [exact H | exact (check_uncheck_round_trip _ _ H)].
Defined.

(** C3, as stated, fails: the handler appends on every [checked = true]
    event, so two of them in a row leave the label twice. *)
Lemma check_twice_duplicates :
  occurrences "강남도서관"
    (changeHandler setSelected
       (changeHandler setSelected [] true "강남도서관") true "강남도서관") = 2.
Proof. reflexivity. Qed.

(** ** The handler on references *)

Lemma alloc_fresh (h : Store) (arr : list string) :
  h !! (alloc h arr).1 = None.
Proof. apply not_elem_of_dom. apply is_fresh. Qed.

(** C10.  On a store that holds the old selection [s] at [r], either kind of
    change event makes the handler call the setter with a reference [r']
    that was not in use before, holding the new selection; the array at [r]
    is still [s], and so is every other array of the store. *)
Theorem handler_builds_new_array {A : Type} (setCheckedInputs : Ref → A)
    (h : Store) (r : Ref) (s : list string) (checked : bool) (l : string) :
  h !! r = Some s →
  ∃ r' h',
    changeHandler_ref setCheckedInputs r checked l h
      = Some (setCheckedInputs r', h') ∧
    h !! r' = None ∧
    r' ≠ r ∧
    h' !! r' = Some (changeHandler setSelected s checked l) ∧
    h' !! r = Some s ∧
    ∀ q, q ≠ r' → h' !! q = h !! q.
Proof.
  intros Hr.
  set (s' := changeHandler setSelected s checked l).
  exists (alloc h s').1, (alloc h s').2.
  pose proof (alloc_fresh h s') as Hfresh.
  assert (Hne : (alloc h s').1 ≠ r) by (intros Heq; rewrite Heq, Hr in Hfresh; done).
  split_and!.
  - unfold changeHandler_ref, spread_with, filter_out, s', changeHandler, setSelected.
    destruct checked; rewrite Hr; reflexivity.
  - exact Hfresh.
  - exact Hne.
  - apply lookup_insert_eq.
  - unfold alloc; simpl. rewrite lookup_insert_ne by exact Hne. exact Hr.
  - intros q Hq. unfold alloc; simpl. by rewrite lookup_insert_ne.
Qed.

(** A check of "강남도서관" on a store with one array. *)
Lemma handler_builds_new_array_witness :
  ({[ 0 := ["노원학습관"] ]} : Store) !! 0 = Some ["노원학습관"] ∧
  ∃ r' h',
    changeHandler_ref (λ r, r) 0 true "강남도서관" {[ 0 := ["노원학습관"] ]}
      = Some (r', h') ∧
    ({[ 0 := ["노원학습관"] ]} : Store) !! r' = None ∧
    r' ≠ 0 ∧
    h' !! r' = Some (changeHandler setSelected ["노원학습관"] true "강남도서관") ∧
    h' !! 0 = Some ["노원학습관"] ∧
    ∀ q, q ≠ r' → h' !! q = ({[ 0 := ["노원학습관"] ]} : Store) !! q.
Proof.
  split; [reflexivity|].
  apply (handler_builds_new_array (λ r, r)). reflexivity.
Defined.

(** ** Looking up and checking elements *)

Lemma getElementById_Some (doc : Document) (x : string) (a : nat) :
  getElementById doc x = Some a ↔
  x ≠ "" ∧
  ∃ e, doc !! a = Some e ∧ el_id e = x ∧
       ∀ j y, doc !! j = Some y → j < a → el_id y ≠ x.
Proof.
  unfold getElementById. destruct (decide (x = "")) as [->|Hne].
  - split; [done | by intros [? _]].
  - split.
    + intros H. split; [done|]. apply fmap_Some in H as [[a' e] [H ->]].
      apply list_find_Some in H. exists e. exact H.
    + intros (_ & e & H). apply fmap_Some. exists (a, e). split; [|done].
      apply list_find_Some. exact H.
Qed.

Lemma getElementById_None (doc : Document) (x : string) :
  getElementById doc x = None ↔ ¬ has_element doc x.
Proof.
  unfold getElementById, has_element. destruct (decide (x = "")) as [->|Hne].
  - split; [by intros _ [? _] | done].
  - rewrite fmap_None, list_find_None, Forall_forall. split.
    + intros H (_ & (e & -> & He)%list_elem_of_fmap). by apply (H e).
    + intros H e He Heq. apply H. split; [done|].
      apply list_elem_of_fmap. by exists e.
Qed.

Lemma getElementById_is_Some (doc : Document) (x : string) :
  is_Some (getElementById doc x) ↔ has_element doc x.
Proof.
  rewrite <-not_eq_None_Some, getElementById_None. split; [|auto].
  unfold has_element. intros H.
  destruct (decide (x = "")), (decide (x ∈ el_id <$> doc)); tauto.
Qed.

Lemma has_element_ids (doc doc' : Document) (x : string) :
  el_id <$> doc = el_id <$> doc' → has_element doc x ↔ has_element doc' x.
Proof. intros Hids. unfold has_element. by rewrite Hids. Qed.

Lemma label_has_element (doc : Document) (l : string) :
  el_id <$> doc = labels → l ∈ labels → has_element doc l.
Proof. intros Hids Hl. split; [by apply label_nonempty | by rewrite Hids]. Qed.

Lemma getElementById_ids (doc doc' : Document) (x : string) :
  el_id <$> doc = el_id <$> doc' →
  getElementById doc x = getElementById doc' x.
Proof.
  intros Hids. unfold getElementById.
  destruct (decide (x = "")); [done|].
  assert (H : ∀ d : Document,
    fst <$> list_find (λ e, el_id e = x) d
    = fst <$> list_find (λ y, y = x) (el_id <$> d)).
  { intros d. rewrite list_find_fmap. by destruct (list_find _ d) as [[??]|]. }
  by rewrite !H, Hids.
Qed.

Lemma assign_checked_ids (doc : Document) (a : nat) (b : bool) :
  el_id <$> assign_checked doc a b = el_id <$> doc.
Proof.
  unfold assign_checked.
  rewrite (list_fmap_alter el_id (set_checked b) (λ y, y)).
  - by apply list_alter_id.
  - by apply Forall_forall.
Qed.

Lemma assign_checked_same (doc : Document) (a : nat) (e : Element) :
  doc !! a = Some e → assign_checked doc a (el_checked e) = doc.
Proof.
  intros He. unfold assign_checked. apply list_eq. intros j.
  destruct (decide (a = j)) as [<-|Hne].
  - rewrite list_lookup_alter_eq, He. by destruct e.
  - by rewrite list_lookup_alter_ne.
Qed.

Lemma shows_Some (doc : Document) (x : string) (b : bool) :
  shows doc x = Some b ↔
  ∃ a e, getElementById doc x = Some a ∧ doc !! a = Some e ∧ el_checked e = b.
Proof.
  unfold shows. split.
  - intros H. apply bind_Some in H as (a & Ha & H).
    apply fmap_Some in H as (e & He & ->). by exists a, e.
  - intros (a & e & Ha & He & <-). by rewrite Ha; simpl; rewrite He.
Qed.

Lemma shows_is_Some (doc : Document) (x : string) :
  is_Some (shows doc x) ↔ has_element doc x.
Proof.
  rewrite <-getElementById_is_Some. split.
  - intros [b Hb]. apply shows_Some in Hb as (a & ? & Ha & _). by exists a.
  - intros [a Ha]. pose proof Ha as Ha'.
    apply getElementById_Some in Ha' as (_ & e & He & _).
    exists (el_checked e). apply shows_Some. by exists a, e.
Qed.

Lemma shows_elem (doc : Document) (x : string) :
  is_Some (shows doc x) → x ∈ el_id <$> doc.
Proof. intros H. by apply shows_is_Some in H as [_ H]. Qed.

Lemma shows_assign (doc : Document) (x y : string) (a : nat) (b : bool) :
  getElementById doc x = Some a →
  shows (assign_checked doc a b) y
  = if decide (y = x) then Some b else shows doc y.
Proof.
  intros Ha. unfold shows.
  rewrite (getElementById_ids _ doc) by apply assign_checked_ids.
  pose proof Ha as Ha'. apply getElementById_Some in Ha' as (_ & e & He & Hid & _).
  destruct (decide (y = x)) as [->|Hne].
  - rewrite Ha; simpl. unfold assign_checked.
    by rewrite list_lookup_alter_eq, He.
  - destruct (getElementById doc y) as [a'|] eqn:Hy; [simpl|done].
    unfold assign_checked. rewrite list_lookup_alter_ne; [done|].
    intros <-. apply getElementById_Some in Hy as (_ & e' & He' & Hid' & _).
    congruence.
Qed.

(** ** The effect *)

Lemma resync_spec (ids : list string) (doc : Document) :
  (∀ x, x ∈ ids → has_element doc x) →
  ∃ doc', resync ids doc = Done doc' ∧
          el_id <$> doc' = el_id <$> doc ∧
          ∀ x, shows doc' x = if decide (x ∈ ids) then Some true else shows doc x.
Proof.
  revert doc. induction ids as [|y ids IH]; intros doc Hin.
  - exists doc. split_and!; [done..|]. intros x.
    destruct (decide (x ∈ [])) as [H|]; [|done]. by apply elem_of_nil in H.
  - assert (Hy : has_element doc y) by (apply Hin; left).
    apply getElementById_is_Some in Hy as [a Ha]. simpl. rewrite Ha.
    destruct (IH (assign_checked doc a true)) as (doc' & Hrun & Hids & Hshow).
    { intros x Hx. rewrite (has_element_ids _ doc) by apply assign_checked_ids.
      apply Hin. by right. }
    exists doc'. split_and!; [done| by rewrite Hids, assign_checked_ids |].
    intros x. rewrite Hshow, (shows_assign _ y) by done.
    destruct (decide (x ∈ ids)) as [Hx|Hx].
    + rewrite decide_True; [done | by right].
    + destruct (decide (x = y)) as [->|Hne].
      * rewrite decide_True; [done | left].
      * rewrite decide_False; [done|]. by intros [?|?]%elem_of_cons.
Qed.

Lemma resync_noop (ids : list string) (doc : Document) :
  (∀ x, x ∈ ids → shows doc x = Some true) → resync ids doc = Done doc.
Proof.
  induction ids as [|y ids IH]; intros Hin; [done|].
  destruct (proj1 (shows_Some doc y true)) as (a & e & Ha & He & Hc).
  { apply Hin. left. }
  simpl. rewrite Ha, <-Hc, (assign_checked_same _ _ e) by done.
  apply IH. intros x Hx. apply Hin. by right.
Qed.

Lemma resync_missing (ids : list string) (doc : Document) (x : string) :
  x ∈ ids → ¬ has_element doc x → ∃ doc', resync ids doc = Thrown doc'.
Proof.
  revert doc. induction ids as [|y ids IH]; intros doc Hx Hmiss.
  - by apply elem_of_nil in Hx.
  - simpl. destruct (getElementById doc y) as [a|] eqn:Ha; [|by exists doc].
    apply elem_of_cons in Hx as [->|Hx].
    + apply getElementById_None in Hmiss. congruence.
    + apply IH; [done|].
      by rewrite (has_element_ids _ doc) by apply assign_checked_ids.
Qed.

Lemma useEffect_resync (ids : list string) (doc : Document) :
  useEffect ids doc = resync ids doc.
Proof. unfold useEffect. by destruct ids. Qed.

(** ** Renders *)

Lemma Label_onChange {A : Type} (s : list string) (f : list string → A)
    (a : nat) (n : CheckboxNode A) (e : ChangeEvent) :
  inputs (Label s f) !! a = Some n →
  onChange n e = changeHandler f s (target_checked e) (target_id e).
Proof.
  revert a n.
  assert (H : Forall (λ n, onChange n e
      = changeHandler f s (target_checked e) (target_id e)) (inputs (Label s f))).
  { unfold inputs, Label; simpl. repeat constructor. }
  intros a n Hn. by apply (proj1 (Forall_lookup _ _) H a n).
Qed.

Lemma create_elements_ids {A : Type} (nodes : list (CheckboxNode A)) :
  el_id <$> create_elements nodes = id <$> nodes.
Proof. unfold create_elements. rewrite <-list_fmap_compose. done. Qed.

Lemma create_elements_shows {A : Type} (nodes : list (CheckboxNode A)) (x : string) :
  x ≠ "" → x ∈ id <$> nodes → shows (create_elements nodes) x = Some false.
Proof.
  intros Hne Hx. rewrite <-create_elements_ids in Hx.
  assert (Hs : is_Some (shows (create_elements nodes) x))
    by (by apply shows_is_Some).
  destruct Hs as [b Hb]. rewrite Hb.
  apply shows_Some in Hb as (a & e & _ & He & <-).
  unfold create_elements in He. rewrite list_lookup_fmap in He.
  apply fmap_Some in He as (n & _ & ->). done.
Qed.

Lemma patch_elements_same {A : Type} (nodes : list (CheckboxNode A)) (doc : Document) :
  id <$> nodes = el_id <$> doc → patch_elements nodes doc = doc.
Proof.
  unfold patch_elements. revert doc.
  induction nodes as [|n nodes IH]; intros [|e doc] Hids; try done.
  simpl in *. injection Hids as Hn Hrest.
  rewrite Hn, IH by done. by destruct e.
Qed.

Lemma mount_spec (sel : list string) :
  (∀ x, x ∈ sel → x ∈ labels) →
  ∃ doc, mount sel = Done (mkPage sel doc) ∧
         el_id <$> doc = labels ∧
         ∀ x, x ∈ labels → shows doc x = Some (bool_decide (x ∈ sel)).
Proof.
  intros Hsel. unfold mount. cbn [effect Label].
  rewrite useEffect_resync.
  set (r := Label sel setSelected).
  destruct (resync_spec sel (create_elements (inputs r))) as (doc & Hrun & Hids & Hshow).
  { intros x Hx. apply label_has_element; [apply create_elements_ids|].
    by apply Hsel. }
  exists doc. fold r. rewrite Hrun. split_and!; [done| |].
  - by rewrite Hids, create_elements_ids.
  - intros x Hx. rewrite Hshow. case_bool_decide.
    + by rewrite decide_True.
    + rewrite decide_False by done.
      apply create_elements_shows; [by apply label_nonempty | done].
Qed.

Lemma rerender_spec (sel : list string) (doc : Document) :
  el_id <$> doc = labels →
  (∀ x, x ∈ sel → x ∈ labels) →
  ∃ doc', rerender sel doc = Done (mkPage sel doc') ∧
          el_id <$> doc' = labels ∧
          ∀ x, shows doc' x = if decide (x ∈ sel) then Some true else shows doc x.
Proof.
  intros Hdoc Hsel. unfold rerender. cbn [effect Label].
  rewrite useEffect_resync.
  set (r := Label sel setSelected).
  rewrite (patch_elements_same (inputs r) doc) by (by rewrite Hdoc).
  destruct (resync_spec sel doc) as (doc' & Hrun & Hids & Hshow).
  { intros x Hx. apply label_has_element; [done|]. by apply Hsel. }
  exists doc'. rewrite Hrun. split_and!; [done| congruence | done].
Qed.

Lemma rerender_noop (sel : list string) (doc : Document) :
  el_id <$> doc = labels →
  (∀ x, x ∈ sel → shows doc x = Some true) →
  rerender sel doc = Done (mkPage sel doc).
Proof.
  intros Hdoc Hsel. unfold rerender. cbn [effect Label].
  rewrite useEffect_resync.
  rewrite (patch_elements_same (inputs (Label sel setSelected)) doc) by (by rewrite Hdoc).
  by rewrite resync_noop.
Qed.

(** A render that ended normally leaves a synced page. *)
Lemma selection_rendered (sel : list string) (doc : Document) :
  el_id <$> doc = labels →
  (∃ doc', resync sel doc = Done doc') →
  ∀ x, x ∈ sel → x ∈ labels.
Proof.
  intros Hdoc [doc' Hrun] x Hx.
  destruct (decide (x ∈ labels)) as [|Hmiss]; [done|].
  rewrite <-Hdoc in Hmiss.
  destruct (resync_missing sel doc x Hx) as [d Hd]; [by intros [_ ?] | congruence].
Qed.

Lemma mount_Done_synced (sel : list string) (page : Page) :
  mount sel = Done page → synced page.
Proof.
  intros Hrun.
  assert (Hsel : ∀ x, x ∈ sel → x ∈ labels).
  { apply (selection_rendered sel (create_elements (inputs (Label sel setSelected)))).
    - by rewrite create_elements_ids.
    - unfold mount in Hrun. cbn [effect Label] in Hrun.
      rewrite useEffect_resync in Hrun.
      destruct (resync sel _) as [d|d] eqn:Hd; [by exists d | done]. }
  destruct (mount_spec sel Hsel) as (doc & Hrun' & Hids & Hshow).
  rewrite Hrun in Hrun'. injection Hrun' as ->. split; [done|].
  simpl. intros l Hl. rewrite Hshow by (by apply Hsel).
  by rewrite bool_decide_eq_true_2.
Qed.

Lemma rerender_Done_synced (sel : list string) (doc : Document) (page : Page) :
  el_id <$> doc = labels → rerender sel doc = Done page → synced page.
Proof.
  intros Hdoc Hrun.
  assert (Hsel : ∀ x, x ∈ sel → x ∈ labels).
  { apply (selection_rendered sel doc Hdoc).
    unfold rerender in Hrun. cbn [effect Label] in Hrun.
    rewrite useEffect_resync in Hrun.
    rewrite (patch_elements_same (inputs (Label sel setSelected)) doc) in Hrun
      by (by rewrite Hdoc).
    destruct (resync sel doc) as [d|d] eqn:Hd; [by exists d | done]. }
  destruct (rerender_spec sel doc Hdoc Hsel) as (doc' & Hrun' & Hids & Hshow).
  rewrite Hrun in Hrun'. injection Hrun' as ->. split; [done|].
  simpl. intros l Hl. by rewrite Hshow, decide_True.
Qed.

(** ** Clicks *)

Lemma insert_set_checked (doc : Document) (a : nat) (e : Element) (b : bool) :
  doc !! a = Some e → <[a := set_checked b e]> doc = assign_checked doc a b.
Proof.
  intros He. unfold assign_checked. apply list_eq. intros j.
  destruct (decide (a = j)) as [<-|Hne].
  - rewrite list_lookup_alter_eq, He. simpl.
    apply list_lookup_insert_eq. by apply lookup_lt_Some in He.
  - by rewrite list_lookup_insert_ne, list_lookup_alter_ne.
Qed.

Lemma click_label_spec (page : Page) (l : string) :
  synced page → l ∈ labels →
  ∃ b page',
    shows (document page) l = Some b ∧
    click_label l page = Done page' ∧
    selection page' = changeHandler setSelected (selection page) (negb b) l ∧
    synced page' ∧
    ∀ x, shows (document page') x
         = if decide (x = l) then Some (negb b) else shows (document page) x.
Proof.
  intros Hsync Hl. pose proof Hsync as [Hids Hsel].
  destruct page as [sel doc]; simpl in *.
  assert (Hshown : is_Some (shows doc l))
    by (by apply shows_is_Some, label_has_element).
  destruct Hshown as [b Hb]. pose proof Hb as Hb'.
  apply shows_Some in Hb' as (a & e & Ha & He & Hc).
  pose proof Ha as Ha'. apply getElementById_Some in Ha' as (_ & e0 & He0 & Hid & _).
  assert (e0 = e) by congruence. subst e0.
  set (sel' := changeHandler setSelected sel (negb b) l).
  set (doc' := assign_checked doc a (negb b)).
  assert (Hshow' : ∀ x, shows doc' x
      = if decide (x = l) then Some (negb b) else shows doc x)
    by (intros x; by apply shows_assign).
  assert (Hids' : el_id <$> doc' = labels)
    by (unfold doc'; by rewrite assign_checked_ids).
  assert (Hsel' : ∀ x, x ∈ sel' → shows doc' x = Some true).
  { intros x Hx. rewrite Hshow'. unfold sel', changeHandler, setSelected in Hx.
    destruct b; simpl in Hx.
    - apply list_elem_of_filter in Hx as [Hne Hx].
      rewrite decide_False by done. by apply Hsel.
    - apply elem_of_app in Hx as [Hx|Hx%list_elem_of_singleton].
      + destruct (decide (x = l)); [done | by apply Hsel].
      + by rewrite decide_True. }
  exists b, (mkPage sel' doc'). split_and!; try done.
  unfold click_label; simpl. rewrite Ha. unfold click; simpl. rewrite He.
  assert (Hn : is_Some (inputs (Label sel setSelected) !! a)).
  { apply lookup_lt_is_Some. apply lookup_lt_Some in He.
    rewrite <-(length_fmap el_id), Hids in He. exact He. }
  destruct Hn as [n Hn]. fold (inputs (Label sel setSelected)). rewrite Hn.
  rewrite (Label_onChange _ _ _ _ _ Hn); simpl.
  rewrite (insert_set_checked _ _ _ _ He), Hc, Hid.
  by apply rerender_noop.
Qed.

(** X19.  For a selection whose labels all have a checkbox, the first render
    and every later render end normally and leave the checkbox of every
    label of the selection checked; mounted with ["종로도서관"], the page
    shows "종로도서관" checked without any click. *)
Theorem render_checks_selected (sel : list string) :
  (∀ x, x ∈ sel → x ∈ labels) →
  (∃ doc, mount sel = Done (mkPage sel doc) ∧
          ∀ x, x ∈ sel → shows doc x = Some true) ∧
  (∀ doc, el_id <$> doc = labels →
     ∃ doc', rerender sel doc = Done (mkPage sel doc') ∧
             ∀ x, x ∈ sel → shows doc' x = Some true) ∧
  (∃ doc, mount ["종로도서관"] = Done (mkPage ["종로도서관"] doc) ∧
          shows doc "종로도서관" = Some true).
Proof.
  intros Hsel. split_and!.
  - destruct (mount_spec sel Hsel) as (doc & Hrun & _ & Hshow).
    exists doc. split; [done|]. intros x Hx.
    rewrite Hshow by (by apply Hsel). by rewrite bool_decide_eq_true_2.
  - intros doc Hdoc.
    destruct (rerender_spec sel doc Hdoc Hsel) as (doc' & Hrun & _ & Hshow).
    exists doc'. split; [done|]. intros x Hx.
    by rewrite Hshow, decide_True.
  - eexists. split; [vm_compute; reflexivity | reflexivity].
Qed.

(** The mount with ["종로도서관"]. *)
Lemma render_checks_selected_witness :
  (∀ x, x ∈ ["종로도서관"] → x ∈ labels) ∧
  (∃ doc, mount ["종로도서관"] = Done (mkPage ["종로도서관"] doc) ∧
          ∀ x, x ∈ ["종로도서관"] → shows doc x = Some true).
Proof.
  assert (H : ∀ x, x ∈ ["종로도서관"] → x ∈ labels).
  { intros x ->%list_elem_of_singleton. compute_done. }
  split; [exact H | exact (proj1 (render_checks_selected _ H))].
Defined.

(** C8, as stated, fails: the effect only ever checks.  A checkbox that was
    checked stays checked through a render whose selection no longer holds
    its label. *)
Lemma dropped_label_stays_checked :
  ∃ doc doc',
    mount ["종로도서관"] = Done (mkPage ["종로도서관"] doc) ∧
    rerender [] doc = Done (mkPage [] doc') ∧
    "종로도서관" ∈ labels ∧
    ("종로도서관" ∉ ([] : list string)) ∧
    shows doc' "종로도서관" = Some true.
Proof.
  eexists _, _. split_and!.
  - vm_compute. reflexivity.
  - vm_compute. reflexivity.
  - compute_done.
  - apply not_elem_of_nil.
  - reflexivity.
Qed.

(** C8, amended.  For a selection whose labels all have a checkbox: after
    the first render a checkbox shows checked exactly when its label is in
    the selection; after a later render the checkbox of every label of the
    selection shows checked and every other checkbox shows what it showed
    before the render. *)
Theorem render_shows_selection (sel : list string) :
  (∀ x, x ∈ sel → x ∈ labels) →
  (∃ doc, mount sel = Done (mkPage sel doc) ∧
          ∀ x, x ∈ labels → shows doc x = Some (bool_decide (x ∈ sel))) ∧
  (∀ doc, el_id <$> doc = labels →
     ∃ doc', rerender sel doc = Done (mkPage sel doc') ∧
             ∀ x, x ∈ labels →
               (x ∈ sel → shows doc' x = Some true) ∧
               (x ∉ sel → shows doc' x = shows doc x)).
Proof.
  intros Hsel. split.
  - destruct (mount_spec sel Hsel) as (doc & Hrun & _ & Hshow). by exists doc.
  - intros doc Hdoc.
    destruct (rerender_spec sel doc Hdoc Hsel) as (doc' & Hrun & _ & Hshow).
    exists doc'. split; [done|]. intros x _. rewrite Hshow.
    split; intros Hx; [by rewrite decide_True | by rewrite decide_False].
Qed.

(** The first render with ["종로도서관"]: that box and no other. *)
Lemma render_shows_selection_witness :
  (∀ x, x ∈ ["종로도서관"] → x ∈ labels) ∧
  (∃ doc, mount ["종로도서관"] = Done (mkPage ["종로도서관"] doc) ∧
          ∀ x, x ∈ labels → shows doc x = Some (bool_decide (x ∈ ["종로도서관"]))).
Proof.
  assert (H : ∀ x, x ∈ ["종로도서관"] → x ∈ labels).
  { intros x ->%list_elem_of_singleton. compute_done. }
  split; [exact H | exact (proj1 (render_shows_selection _ H))].
Defined.

(** C2.  What the code does on a selection with a label that has no
    element in the page: the effect throws at that entry, so the pass does
    not end normally and the labels after it are not resynchronized.
    Mounted with ["없는도서관"; "종로도서관"], where "없는도서관" is in none
    of the three lists, the page is left with "종로도서관" unchecked. *)
Theorem resync_throws_on_missing_checkbox :
  (∀ (ids : list string) (doc : Document) (x : string),
     x ∈ ids → x ∉ el_id <$> doc → ∃ doc', useEffect ids doc = Thrown doc') ∧
  ("없는도서관" ∉ labels) ∧
  ∃ doc,
    mount ["없는도서관"; "종로도서관"]
      = Thrown (mkPage ["없는도서관"; "종로도서관"] doc) ∧
    shows doc "종로도서관" = Some false.
Proof.
  split_and!.
  - intros ids doc x Hx Hmiss. rewrite useEffect_resync.
    apply (resync_missing ids doc x); [done | by intros [_ ?]].
  - compute_done.
  - eexists. split; [vm_compute; reflexivity | reflexivity].
Qed.

(** C7.  What the code does after a render whose selection holds a label
    without a checkbox: the effect throws at that entry, and a label that
    comes after it is left unchecked though it is in the selection and has
    a checkbox; so after the first render and so after a later one.  With
    ["없는도서관"; "종로도서관"], "종로도서관" shows unchecked. *)
Theorem selected_label_unchecked_after_throw :
  "종로도서관" ∈ ["없는도서관"; "종로도서관"] ∧
  "종로도서관" ∈ labels ∧
  (∃ doc,
     mount ["없는도서관"; "종로도서관"]
       = Thrown (mkPage ["없는도서관"; "종로도서관"] doc) ∧
     shows doc "종로도서관" = Some false) ∧
  (∃ doc,
     rerender ["없는도서관"; "종로도서관"]
       (create_elements (inputs (Label [] setSelected)))
       = Thrown (mkPage ["없는도서관"; "종로도서관"] doc) ∧
     shows doc "종로도서관" = Some false).
Proof.
  split_and!.
  - compute_done.
  - compute_done.
  - eexists. split; [vm_compute; reflexivity | reflexivity].
  - eexists. split; [vm_compute; reflexivity | reflexivity].
Qed.

(** C3, amended.  On a page left by a render that ended normally, two
    clicks in a row on the checkbox of a label [l] deliver change events
    with opposite [checked] values, never two [checked = true], and after
    them [l] occurs at most once in the selection. *)
Theorem click_twice_no_duplicate (page : Page) (l : string) :
  synced page → l ∈ labels →
  ∃ b p1 p2,
    shows (document page) l = Some b ∧
    click_label l page = Done p1 ∧
    selection p1 = changeHandler setSelected (selection page) (negb b) l ∧
    click_label l p1 = Done p2 ∧
    selection p2 = changeHandler setSelected (selection p1) b l ∧
    (occurrences l (selection p2) ≤ 1)%nat.
Proof.
  intros Hsync Hl.
  destruct (click_label_spec page l Hsync Hl) as (b & p1 & Hb & Hc1 & Hs1 & Hsync1 & Hshow1).
  destruct (click_label_spec p1 l Hsync1 Hl) as (b1 & p2 & Hb1 & Hc2 & Hs2 & _ & _).
  rewrite Hshow1, decide_True in Hb1 by done.
  injection Hb1 as <-. rewrite negb_involutive in Hs2.
  exists b, p1, p2. split_and!; try done.
  rewrite Hs2, Hs1. unfold changeHandler, setSelected.
  destruct b; simpl.
  - rewrite occurrences_app, occurrences_filter_eq, occurrences_singleton. done.
  - rewrite occurrences_filter_eq. lia.
Qed.

(** Two clicks on "강남도서관" right after a mount with the empty selection. *)
Lemma click_twice_no_duplicate_witness :
  synced (mkPage [] (create_elements (inputs (Label [] setSelected)))) ∧
  "강남도서관" ∈ labels ∧
  ∃ b p1 p2,
    shows (create_elements (inputs (Label [] setSelected))) "강남도서관" = Some b ∧
    click_label "강남도서관"
      (mkPage [] (create_elements (inputs (Label [] setSelected)))) = Done p1 ∧
    selection p1 = changeHandler setSelected [] (negb b) "강남도서관" ∧
    click_label "강남도서관" p1 = Done p2 ∧
    selection p2 = changeHandler setSelected (selection p1) b "강남도서관" ∧
    (occurrences "강남도서관" (selection p2) ≤ 1)%nat.
Proof.
  assert (H1 : synced (mkPage [] (create_elements (inputs (Label [] setSelected))))).
  { split; [reflexivity|]. intros l Hl. by apply elem_of_nil in Hl. }
  assert (H2 : "강남도서관" ∈ labels) by compute_done.
  split_and!; [exact H1 | exact H2 |].
  exact (click_twice_no_duplicate _ _ H1 H2).
Defined.

(** ** Traces of clicks *)

Lemma clicks_app (t1 t2 : list string) (page : Page) :
  clicks (t1 ++ t2) page
  = match clicks t1 page with
    | Done page' => clicks t2 page'
    | Thrown page' => Thrown page'
    end.
Proof.
  revert page. induction t1 as [|l t1 IH]; intros page; [done|].
  simpl. destruct (click_label l page); [apply IH | done].
Qed.

Lemma last_click_snoc (l x : string) (trace : list string) :
  last_click l (trace ++ [x])
  = if decide (x = l) then Some (length trace) else last_click l trace.
Proof.
  induction trace as [|y trace IH]; simpl.
  - by destruct (decide (x = l)).
  - rewrite IH. destruct (decide (x = l)); [done|].
    by destruct (last_click l trace).
Qed.

Lemma last_click_lt (l : string) (trace : list string) (n : nat) :
  last_click l trace = Some n → n < length trace.
Proof.
  revert n. induction trace as [|y trace IH]; intros n; simpl; [done|].
  destruct (last_click l trace) as [m|].
  - intros [= <-]. specialize (IH m eq_refl). lia.
  - destruct (decide (y = l)); [|done]. intros [= <-]. lia.
Qed.

Lemma last_click_elem (l : string) (trace : list string) :
  l ∈ trace → is_Some (last_click l trace).
Proof.
  induction trace as [|y trace IH]; simpl; [by intros ?%elem_of_nil|].
  intros [->|Hl]%elem_of_cons.
  - destruct (last_click y trace); [by eexists|]. rewrite decide_True by done. by eexists.
  - destruct (IH Hl) as [n ->]. by eexists.
Qed.

Lemma click_count_snoc (l x : string) (trace : list string) :
  click_count l (trace ++ [x])
  = if decide (x = l) then S (click_count l trace) else click_count l trace.
Proof.
  unfold click_count. rewrite filter_app, length_app, filter_cons, filter_nil.
  destruct (decide (x = l)); simpl; lia.
Qed.

Lemma click_count_elem (l : string) (trace : list string) :
  click_count l trace ≠ 0 → l ∈ trace.
Proof.
  unfold click_count. intros Hn.
  destruct (filter (λ x, x = l) trace) as [|y f] eqn:Hf; [done|].
  assert (Hy : y ∈ filter (λ x, x = l) trace) by (rewrite Hf; left).
  apply list_elem_of_filter in Hy as [-> Hy]. done.
Qed.

Lemma ordered_by_filter (t : string → option nat) (P : string → Prop)
    `{∀ x, Decision (P x)} (s : list string) :
  ordered_by t s → ordered_by t (filter P s).
Proof.
  unfold ordered_by. induction s as [|y s IH]; [done|].
  rewrite StronglySorted_cons. intros [Hy Hs].
  rewrite filter_cons. destruct (decide (P y)); [|by apply IH].
  apply StronglySorted_cons. split; [|by apply IH].
  rewrite Forall_forall in Hy. apply Forall_forall.
  intros z [_ Hz]%list_elem_of_filter. by apply Hy.
Qed.

Lemma ordered_by_agree (t t' : string → option nat) (s : list string) :
  (∀ x, x ∈ s → t' x = t x) → ordered_by t s → ordered_by t' s.
Proof.
  unfold ordered_by. induction s as [|y s IH]; intros Heq; [intros _; constructor|].
  rewrite !StronglySorted_cons. intros [Hy Hs]. split.
  - rewrite Forall_forall in Hy. apply Forall_forall. intros z Hz.
    destruct (Hy z Hz) as (ty & tz & Hty & Htz & Hlt).
    exists ty, tz. rewrite !Heq; [done | by right | left].
  - apply IH; [|done]. intros x Hx. apply Heq. by right.
Qed.

Lemma session_invariant (trace : list string) :
  Forall (λ l, l ∈ labels) trace →
  ∃ page,
    session [] trace = Done page ∧
    el_id <$> document page = labels ∧
    (∀ l, l ∈ selection page ↔ shows (document page) l = Some true) ∧
    (∀ l, l ∈ labels →
       shows (document page) l = Some (Nat.odd (click_count l trace))) ∧
    NoDup (selection page) ∧
    ordered_by (λ l, last_click l trace) (selection page).
Proof.
  induction trace as [|x trace IH] using rev_ind; intros Hin.
  - destruct (mount_spec []) as (doc & Hrun & Hids & Hshow).
    { by intros x ?%elem_of_nil. }
    exists (mkPage [] doc). unfold session. rewrite Hrun. simpl.
    split_and!; try done.
    + intros l. split; [by intros ?%elem_of_nil|]. intros Hl.
      assert (Hlab : l ∈ labels).
      { rewrite <-Hids. apply shows_elem. by eexists. }
      rewrite (Hshow l Hlab) in Hl. by rewrite bool_decide_eq_false_2 in Hl by apply not_elem_of_nil.
    + constructor.
    + constructor.
  - apply Forall_app in Hin as [Hin Hx]. rewrite Forall_singleton in Hx.
    destruct (IH Hin) as (page & Hrun & Hids & Hsel & Hodd & Hnodup & Hord).
    assert (Hsync : synced page) by (split; [done | intros l; apply Hsel]).
    destruct (click_label_spec page x Hsync Hx)
      as (b & page' & Hb & Hclick & Hsel' & [Hids' _] & Hshow').
    assert (Hbodd : b = Nat.odd (click_count x trace)).
    { rewrite (Hodd x Hx) in Hb. by injection Hb. }
    assert (Hmem : ∀ l, l ∈ selection page' ↔ shows (document page') l = Some true).
    { intros l. rewrite Hshow', Hsel'. unfold changeHandler, setSelected.
      destruct b; simpl.
      - rewrite list_elem_of_filter, Hsel.
        destruct (decide (l = x)); intuition congruence.
      - rewrite elem_of_app, list_elem_of_singleton, Hsel.
        destruct (decide (l = x)); intuition congruence. }
    assert (Htime : ∀ l, l ∈ selection page →
              ∃ n, last_click l trace = Some n ∧ n < length trace).
    { intros l Hl. apply Hsel in Hl.
      assert (Hlab : l ∈ labels).
      { rewrite <-Hids. apply shows_elem. by eexists. }
      rewrite (Hodd l Hlab) in Hl. injection Hl as Hl.
      destruct (last_click_elem l trace) as [n Hn].
      { apply click_count_elem. intros H0. by rewrite H0 in Hl. }
      exists n. split; [done | by apply last_click_lt in Hn]. }
    exists page'. split_and!; try done.
    + unfold session in *. destruct (mount []) as [p0|p0]; [|done].
      rewrite clicks_app, Hrun. simpl. by rewrite Hclick.
    + intros l Hl. rewrite Hshow', click_count_snoc.
      destruct (decide (l = x)) as [->|Hne].
      * rewrite decide_True by done.
        by rewrite Hbodd, Nat.odd_succ, Nat.negb_odd.
      * rewrite decide_False by done. by apply Hodd.
    + rewrite Hsel'. unfold changeHandler, setSelected. destruct b; simpl.
      * by apply NoDup_filter.
      * apply NoDup_app. split_and!; [done| |apply NoDup_singleton].
        intros l Hl ->%list_elem_of_singleton.
        apply Hsel in Hl. congruence.
    + rewrite Hsel'. unfold changeHandler, setSelected. destruct b; simpl.
      * apply (ordered_by_agree (λ l, last_click l trace)).
        -- intros l [Hne _]%list_elem_of_filter.
           rewrite last_click_snoc. by rewrite decide_False.
        -- by apply ordered_by_filter.
      * assert (Hx' : x ∉ selection page).
        { intros Hl. apply Hsel in Hl. congruence. }
        apply StronglySorted_app. split_and!.
        -- intros l z Hl ->%list_elem_of_singleton.
           destruct (Htime l Hl) as (n & Hn & Hlt).
           exists n, (length trace). rewrite !last_click_snoc.
           split_and!; [|by rewrite decide_True|done].
           rewrite decide_False; [done | intros ->; done].
        -- apply (ordered_by_agree (λ l, last_click l trace)); [|done].
           intros l Hl. rewrite last_click_snoc.
           rewrite decide_False; [done | intros ->; done].
        -- repeat constructor.
Qed.

(** C1, as stated, fails in its order: a label that is checked, unchecked
    and checked again goes to the end of the selection.  After the clicks
    "강남도서관", "노원학습관", "강남도서관", "강남도서관" the selection is
    ["노원학습관"; "강남도서관"], though "강남도서관" was first checked
    before "노원학습관". *)
Lemma rechecked_label_moves_to_end :
  Forall (λ l, l ∈ labels) ["강남도서관"; "노원학습관"; "강남도서관"; "강남도서관"] ∧
  ∃ page,
    session [] ["강남도서관"; "노원학습관"; "강남도서관"; "강남도서관"] = Done page ∧
    selection page = ["노원학습관"; "강남도서관"] ∧
    ¬ ordered_by
        (λ l, first_click l ["강남도서관"; "노원학습관"; "강남도서관"; "강남도서관"])
        (selection page).
Proof.
  split; [repeat constructor; compute_done|].
  eexists. split_and!; [vm_compute; reflexivity | reflexivity |].
  simpl. unfold ordered_by. rewrite StronglySorted_cons, Forall_singleton.
  intros [(tx & ty & Hx & Hy & Hlt) _].
  vm_compute in Hx, Hy. injection Hx as <-. injection Hy as <-. lia.
Qed.

(** C1, amended.  After any sequence of clicks on checkboxes of the
    component, starting from a mount with the empty selection, the run has
    ended normally and the selection holds exactly the labels whose checkbox
    shows checked (those clicked an odd number of times), each once, in the
    order of the last click on each, which is the click that checked it. *)
Theorem selection_after_clicks (trace : list string) :
  Forall (λ l, l ∈ labels) trace →
  ∃ page,
    session [] trace = Done page ∧
    (∀ l, l ∈ selection page ↔ shows (document page) l = Some true) ∧
    (∀ l, l ∈ labels →
       shows (document page) l = Some (Nat.odd (click_count l trace))) ∧
    NoDup (selection page) ∧
    ordered_by (λ l, last_click l trace) (selection page).
Proof.
  intros Hin.
  destruct (session_invariant trace Hin) as (page & Hrun & _ & Hrest).
  by exists page.
Qed.

(** The trace in which "강남도서관" is checked, unchecked and checked again. *)
Lemma selection_after_clicks_witness :
  Forall (λ l, l ∈ labels) ["강남도서관"; "노원학습관"; "강남도서관"; "강남도서관"] ∧
  ∃ page,
    session [] ["강남도서관"; "노원학습관"; "강남도서관"; "강남도서관"] = Done page ∧
    (∀ l, l ∈ selection page ↔ shows (document page) l = Some true) ∧
    (∀ l, l ∈ labels →
       shows (document page) l
       = Some (Nat.odd (click_count l
           ["강남도서관"; "노원학습관"; "강남도서관"; "강남도서관"]))) ∧
    NoDup (selection page) ∧
    ordered_by
      (λ l, last_click l ["강남도서관"; "노원학습관"; "강남도서관"; "강남도서관"])
      (selection page).
Proof.
  assert (H : Forall (λ l, l ∈ labels)
                ["강남도서관"; "노원학습관"; "강남도서관"; "강남도서관"])
    by (repeat constructor; compute_done).
  split; [exact H | exact (selection_after_clicks _ H)].
Defined.

(** * Further properties *)

(** ** The effect on any page *)

Lemma resync_app (ids1 ids2 : list string) (doc : Document) :
  resync (ids1 ++ ids2) doc
  = match resync ids1 doc with
    | Done doc' => resync ids2 doc'
    | Thrown doc' => Thrown doc'
    end.
Proof.
  revert doc. induction ids1 as [|y ids1 IH]; intros doc; [done|].
  simpl. destruct (getElementById doc y); [apply IH | done].
Qed.

Lemma check_all_lookup (ids : list string) (doc : Document) (j : nat) :
  check_all ids doc !! j
  = (λ e, if decide (el_id e ∈ ids ∧ getElementById doc (el_id e) = Some j)
          then set_checked true e else e) <$> doc !! j.
Proof. unfold check_all. by rewrite list_lookup_imap. Qed.

Lemma check_all_ids (ids : list string) (doc : Document) :
  el_id <$> check_all ids doc = el_id <$> doc.
Proof.
  apply list_eq. intros j. rewrite !list_lookup_fmap, check_all_lookup.
  destruct (doc !! j) as [e|]; [simpl|done]. by case_decide.
Qed.

Lemma check_all_nil (doc : Document) : check_all [] doc = doc.
Proof.
  apply list_eq. intros j. rewrite check_all_lookup.
  by destruct (doc !! j) as [e|].
Qed.

Lemma check_all_cons (y : string) (rest : list string) (doc : Document) (a : nat) :
  getElementById doc y = Some a →
  check_all rest (assign_checked doc a true) = check_all (y :: rest) doc.
Proof.
  intros Ha. apply list_eq. intros j. rewrite !check_all_lookup.
  pose proof Ha as Ha'. apply getElementById_Some in Ha' as (_ & e0 & He0 & Hid & _).
  unfold assign_checked.
  destruct (decide (a = j)) as [<-|Hne].
  - rewrite list_lookup_alter_eq, He0. simpl. rewrite Hid.
    rewrite (decide_True (P := y ∈ y :: rest ∧ _)) by (split; [left | done]).
    by case_decide.
  - rewrite list_lookup_alter_ne by done.
    destruct (doc !! j) as [e|]; [simpl|done].
    rewrite (getElementById_ids (alter (set_checked true) a doc) doc)
      by apply assign_checked_ids.
    destruct (decide (el_id e ∈ rest ∧ getElementById doc (el_id e) = Some j))
      as [[Hin Hj]|Hno].
    + rewrite decide_True; [done|]. split; [by right | done].
    + rewrite decide_False; [done|]. intros [Hin Hj]. apply Hno. split; [|done].
      apply elem_of_cons in Hin as [Heq|Hin]; [|done].
      rewrite Heq in Hj. congruence.
Qed.

Lemma has_element_check_all (ids : list string) (doc : Document) (x : string) :
  has_element (check_all ids doc) x ↔ has_element doc x.
Proof. apply has_element_ids, check_all_ids. Qed.

Lemma resync_check_all (ids : list string) (doc : Document) :
  Forall (has_element doc) ids → resync ids doc = Done (check_all ids doc).
Proof.
  revert doc. induction ids as [|y ids IH]; intros doc Hin.
  - by rewrite check_all_nil.
  - apply Forall_cons in Hin as [Hy Hin].
    apply getElementById_is_Some in Hy as [a Ha]. simpl. rewrite Ha.
    rewrite IH.
    + by rewrite (check_all_cons y ids doc a).
    + eapply Forall_impl; [exact Hin|]. intros x Hx.
      by rewrite (has_element_ids _ doc) by apply assign_checked_ids.
Qed.

Lemma resync_throw (ids1 ids2 : list string) (x : string) (doc : Document) :
  Forall (has_element doc) ids1 → ¬ has_element doc x →
  resync (ids1 ++ x :: ids2) doc = Thrown (check_all ids1 doc).
Proof.
  intros Hin Hx. rewrite resync_app, resync_check_all by done. simpl.
  assert (Hnone : getElementById (check_all ids1 doc) x = None).
  { apply getElementById_None. by rewrite has_element_check_all. }
  by rewrite Hnone.
Qed.

(** Either every id has an element, or there is a first one without. *)
Lemma first_missing (ids : list string) (doc : Document) :
  Forall (has_element doc) ids ∨
  ∃ ids1 x ids2, ids = ids1 ++ x :: ids2 ∧
                 Forall (has_element doc) ids1 ∧ ¬ has_element doc x.
Proof.
  induction ids as [|y ids IH].
  - left. constructor.
  - destruct (getElementById doc y) as [a|] eqn:Hy.
    + assert (Hy' : has_element doc y) by (apply getElementById_is_Some; by eexists).
      destruct IH as [Hall|(ids1 & x & ids2 & -> & H1 & Hx)].
      * left. by constructor.
      * right. exists (y :: ids1), x, ids2. split_and!; [done| |done].
        by constructor.
    + apply getElementById_None in Hy.
      right. exists [], y, ids. split_and!; [done| |done]. constructor.
Qed.

Lemma useEffect_left_by (ids : list string) (doc : Document) :
  ∃ ids', ids' ⊆ ids ∧ left_by (useEffect ids doc) = check_all ids' doc.
Proof.
  rewrite useEffect_resync.
  destruct (first_missing ids doc) as [Hall|(ids1 & x & ids2 & -> & H1 & Hx)].
  - exists ids. split; [done|]. by rewrite resync_check_all.
  - exists ids1. split.
    + intros z Hz. apply elem_of_app. by left.
    + by rewrite resync_throw.
Qed.

Lemma check_all_idemp (ids : list string) (doc : Document) :
  check_all ids (check_all ids doc) = check_all ids doc.
Proof.
  apply list_eq. intros j. rewrite check_all_lookup, check_all_lookup.
  destruct (doc !! j) as [e|]; [simpl|done]. f_equal.
  rewrite (getElementById_ids (check_all ids doc) doc) by apply check_all_ids.
  destruct (decide (el_id e ∈ ids ∧ getElementById doc (el_id e) = Some j)) as [H|H].
  - simpl. by rewrite decide_True.
  - by rewrite decide_False.
Qed.

Lemma check_all_ext (ids ids' : list string) (doc : Document) :
  (∀ x, x ∈ ids ↔ x ∈ ids') → check_all ids doc = check_all ids' doc.
Proof.
  intros Heq. apply list_eq. intros j. rewrite !check_all_lookup.
  destruct (doc !! j) as [e|]; [simpl|done]. f_equal.
  destruct (decide (el_id e ∈ ids ∧ getElementById doc (el_id e) = Some j))
    as [[H1 H2]|H].
  - rewrite decide_True; [done|]. split; [by apply Heq | done].
  - rewrite decide_False; [done|]. intros [H1 H2]. apply H. split; [by apply Heq | done].
Qed.

(** X1.  On any page on which every id of the selection is the ID of an
    element (it is not empty and an element carries it), the effect ends
    normally and leaves the page with [checked] set on the first element of
    each id of the selection, every other element as it was: also on a page
    where an id occurs twice. *)
Theorem useEffect_checks_first_elements (ids : list string) (doc : Document) :
  Forall (has_element doc) ids → useEffect ids doc = Done (check_all ids doc).
Proof. intros Hin. rewrite useEffect_resync. by apply resync_check_all. Qed.

(** A selection with a repeated id on a page with a repeated id and an
    element without ID. *)
Lemma useEffect_checks_first_elements_witness :
  Forall (has_element
            [mkElement "b" false; mkElement "" false; mkElement "a" false;
             mkElement "a" false])
         ["a"; "b"; "a"] ∧
  useEffect ["a"; "b"; "a"]
    [mkElement "b" false; mkElement "" false; mkElement "a" false;
     mkElement "a" false]
  = Done (check_all ["a"; "b"; "a"]
            [mkElement "b" false; mkElement "" false; mkElement "a" false;
             mkElement "a" false]).
Proof.
  assert (H : Forall (has_element
      [mkElement "b" false; mkElement "" false; mkElement "a" false;
       mkElement "a" false]) ["a"; "b"; "a"]).
  { repeat (apply Forall_cons_2; [split; [discriminate | compute_done] |]).
    apply Forall_nil_2. }
  split; [exact H | exact (useEffect_checks_first_elements _ _ H)].
Defined.

(** X2.  When the selection holds an id that is not the ID of an element
    (it is empty, or no element carries it), the effect throws at the first
    such id and processes nothing after it: the page is left as applying the
    ids before that one leaves it. *)
Theorem useEffect_throws_after_prefix (ids1 ids2 : list string) (x : string)
    (doc : Document) :
  Forall (has_element doc) ids1 → ¬ has_element doc x →
  useEffect (ids1 ++ x :: ids2) doc = Thrown (check_all ids1 doc).
Proof. intros Hin Hx. rewrite useEffect_resync. by apply resync_throw. Qed.

(** "a" is applied; the empty id is the ID of no element, though an element
    carries it as its attribute; "b" is never reached. *)
Lemma useEffect_throws_after_prefix_witness :
  Forall (has_element [mkElement "" false; mkElement "a" false; mkElement "b" false])
         ["a"] ∧
  ¬ has_element [mkElement "" false; mkElement "a" false; mkElement "b" false] "" ∧
  useEffect (["a"] ++ "" :: ["b"])
    [mkElement "" false; mkElement "a" false; mkElement "b" false]
  = Thrown (check_all ["a"]
              [mkElement "" false; mkElement "a" false; mkElement "b" false]).
Proof.
  assert (H1 : Forall (has_element
      [mkElement "" false; mkElement "a" false; mkElement "b" false]) ["a"]).
  { apply Forall_cons_2; [split; [discriminate | compute_done] | apply Forall_nil_2]. }
  assert (H2 : ¬ has_element
      [mkElement "" false; mkElement "a" false; mkElement "b" false] "").
  { intros [H _]. by apply H. }
  split_and!; [exact H1 | exact H2 |].
  exact (useEffect_throws_after_prefix _ _ _ _ H1 H2).
Defined.

(** X3.  Running the effect again on the page it left gives the same
    outcome and the same page, whether it ended normally or threw. *)
Theorem useEffect_idempotent (ids : list string) (doc : Document) :
  useEffect ids (left_by (useEffect ids doc)) = useEffect ids doc.
Proof.
  rewrite !useEffect_resync.
  destruct (first_missing ids doc) as [Hall|(ids1 & x & ids2 & -> & H1 & Hx)].
  - rewrite (resync_check_all ids doc) by done. simpl.
    rewrite resync_check_all.
    + by rewrite check_all_idemp.
    + eapply Forall_impl; [exact Hall|]. intros z Hz.
      by apply has_element_check_all.
  - rewrite (resync_throw ids1 ids2 x doc) by done. simpl.
    rewrite resync_throw.
    + by rewrite check_all_idemp.
    + eapply Forall_impl; [exact H1|]. intros z Hz.
      by apply has_element_check_all.
    + by rewrite has_element_check_all.
Qed.

(** X4.  However it ends, the effect keeps the number of elements and their
    ids, and an element that was checked is still checked: it never
    unchecks. *)
Theorem useEffect_never_unchecks (ids : list string) (doc : Document) :
  el_id <$> left_by (useEffect ids doc) = el_id <$> doc ∧
  length (left_by (useEffect ids doc)) = length doc ∧
  ∀ j, el_checked <$> doc !! j = Some true →
       el_checked <$> left_by (useEffect ids doc) !! j = Some true.
Proof.
  destruct (useEffect_left_by ids doc) as (ids' & _ & ->).
  split_and!.
  - apply check_all_ids.
  - rewrite <-(length_fmap el_id), check_all_ids. apply length_fmap.
  - intros j. rewrite check_all_lookup.
    destruct (doc !! j) as [e|]; [simpl|done].
    intros [= Hc]. f_equal. by case_decide.
Qed.

(** X5.  When every id of the selection is the ID of an element (not empty
    and carried by an element), the outcome depends only on which ids the
    selection holds, not on their order or on repetitions. *)
Theorem useEffect_order_irrelevant (ids ids' : list string) (doc : Document) :
  (∀ x, x ∈ ids ↔ x ∈ ids') → Forall (has_element doc) ids →
  useEffect ids doc = useEffect ids' doc.
Proof.
  intros Heq Hin. rewrite !useEffect_resync.
  rewrite (resync_check_all ids) by done.
  rewrite (resync_check_all ids').
  - by rewrite (check_all_ext ids ids').
  - rewrite Forall_forall in Hin. apply Forall_forall. intros x Hx.
    apply Hin. by apply Heq.
Qed.

Lemma useEffect_order_irrelevant_witness :
  (∀ x, x ∈ ["a"; "b"; "a"] ↔ x ∈ ["b"; "a"]) ∧
  Forall (has_element [mkElement "a" false; mkElement "b" false]) ["a"; "b"; "a"] ∧
  useEffect ["a"; "b"; "a"] [mkElement "a" false; mkElement "b" false]
  = useEffect ["b"; "a"] [mkElement "a" false; mkElement "b" false].
Proof.
  assert (H1 : ∀ x, x ∈ ["a"; "b"; "a"] ↔ x ∈ ["b"; "a"])
    by (intros x; rewrite !elem_of_cons, !elem_of_nil; tauto).
  assert (H2 : Forall (has_element [mkElement "a" false; mkElement "b" false])
                 ["a"; "b"; "a"]).
  { repeat (apply Forall_cons_2; [split; [discriminate | compute_done] |]).
    apply Forall_nil_2. }
  split_and!; [exact H1 | exact H2 |].
  exact (useEffect_order_irrelevant _ _ _ H1 H2).
Defined.

(** X6.  However it ends, the effect leaves untouched every element whose id
    is not in the selection and every element that is not the first with its
    id. *)
Theorem useEffect_touches_only_selected (ids : list string) (doc : Document)
    (j : nat) (e : Element) :
  doc !! j = Some e →
  el_id e ∉ ids ∨ getElementById doc (el_id e) ≠ Some j →
  left_by (useEffect ids doc) !! j = Some e.
Proof.
  intros He Hout.
  destruct (useEffect_left_by ids doc) as (ids' & Hsub & ->).
  rewrite check_all_lookup, He. simpl.
  rewrite decide_False; [done|]. intros [Hin Hj].
  destruct Hout as [Hout|Hout]; [apply Hout; by apply Hsub | done].
Qed.

(** The second element with id "a" stays unchecked. *)
Lemma useEffect_touches_only_selected_witness :
  [mkElement "a" false; mkElement "a" false] !! 1 = Some (mkElement "a" false) ∧
  (el_id (mkElement "a" false) ∉ ["a"] ∨
   getElementById [mkElement "a" false; mkElement "a" false]
     (el_id (mkElement "a" false)) ≠ Some 1) ∧
  left_by (useEffect ["a"] [mkElement "a" false; mkElement "a" false]) !! 1
  = Some (mkElement "a" false).
Proof.
  assert (H1 : [mkElement "a" false; mkElement "a" false] !! 1
               = Some (mkElement "a" false)) by reflexivity.
  assert (H2 : el_id (mkElement "a" false) ∉ ["a"] ∨
    getElementById [mkElement "a" false; mkElement "a" false]
      (el_id (mkElement "a" false)) ≠ Some 1)
    by (right; vm_compute; discriminate).
  split_and!; [exact H1 | exact H2 |].
  exact (useEffect_touches_only_selected _ _ _ _ H1 H2).
Defined.

(** ** More on the handler *)

Lemma occurrences_ne_singleton (x l : string) : x ≠ l → occurrences x [l] = 0.
Proof.
  intros Hne. unfold occurrences. rewrite filter_cons_False; [done|].
  intros ->. done.
Qed.

Lemma filter_ne_length (l : string) (s : list string) :
  length (filter (λ el, el ≠ l) s) + occurrences l s = length s.
Proof.
  unfold occurrences. induction s as [|y s IH]; [done|].
  destruct (decide (y = l)) as [->|Hne].
  - rewrite (filter_cons_False (λ el, el ≠ l)) by (intros ?; done).
    rewrite (filter_cons_True (λ x, x = l)) by done. simpl. lia.
  - rewrite (filter_cons_True (λ el, el ≠ l)) by done.
    rewrite (filter_cons_False (λ x, x = l)) by done. simpl. lia.
Qed.

Lemma filter_ne_comm (l1 l2 : string) (s : list string) :
  filter (λ el, el ≠ l2) (filter (λ el, el ≠ l1) s)
  = filter (λ el, el ≠ l1) (filter (λ el, el ≠ l2) s).
Proof.
  rewrite !list_filter_filter. apply list_filter_iff. intros x. tauto.
Qed.

(** X7.  An uncheck event for a label that is not in the selection hands
    the setter the selection as it is. *)
Theorem uncheck_absent_is_noop {A : Type} (setCheckedInputs : list string → A)
    (s : list string) (l : string) :
  l ∉ s → changeHandler setCheckedInputs s false l = setCheckedInputs s.
Proof. intros Hl. unfold changeHandler. by rewrite filter_ne_absent. Qed.

Lemma uncheck_absent_is_noop_witness :
  ("강남도서관" ∉ ["노원학습관"; "종로도서관"]) ∧
  changeHandler setSelected ["노원학습관"; "종로도서관"] false "강남도서관"
  = setSelected ["노원학습관"; "종로도서관"].
Proof.
  assert (H : "강남도서관" ∉ ["노원학습관"; "종로도서관"]) by compute_done.
  split; [exact H | exact (uncheck_absent_is_noop setSelected _ _ H)].
Defined.

(** X8.  A second uncheck event for the same label changes nothing more. *)
Theorem uncheck_idempotent (s : list string) (l : string) :
  changeHandler setSelected (changeHandler setSelected s false l) false l
  = changeHandler setSelected s false l.
Proof.
  unfold changeHandler, setSelected.
  apply filter_ne_absent, filter_ne_not_elem.
Qed.

(** X9.  An uncheck of one label commutes with a check or an uncheck of
    another label: either order gives the same selection. *)
Theorem uncheck_commutes_with_other_label (s : list string) (checked : bool)
    (l1 l2 : string) :
  l1 ≠ l2 →
  changeHandler setSelected (changeHandler setSelected s checked l1) false l2
  = changeHandler setSelected (changeHandler setSelected s false l2) checked l1.
Proof.
  intros Hne. unfold changeHandler, setSelected. destruct checked.
  - rewrite filter_app. by rewrite (filter_cons_True _ l1) by done.
  - apply filter_ne_comm.
Qed.

Lemma uncheck_commutes_with_other_label_witness :
  "강남도서관" ≠ "노원학습관" ∧
  changeHandler setSelected
    (changeHandler setSelected ["노원학습관"; "종로도서관"] true "강남도서관")
    false "노원학습관"
  = changeHandler setSelected
      (changeHandler setSelected ["노원학습관"; "종로도서관"] false "노원학습관")
      true "강남도서관".
Proof.
  assert (H : "강남도서관" ≠ "노원학습관") by discriminate.
  split; [exact H | exact (uncheck_commutes_with_other_label _ _ _ _ H)].
Defined.

(** X10.  A check makes the selection one longer; an uncheck makes it
    shorter by the number of times the label occurred. *)
Theorem handler_length (s : list string) (l : string) :
  length (changeHandler setSelected s true l) = S (length s) ∧
  length (changeHandler setSelected s false l) + occurrences l s = length s.
Proof.
  unfold changeHandler, setSelected. split.
  - rewrite length_app. simpl. lia.
  - apply filter_ne_length.
Qed.

(** X11.  A selection without repetitions stays without repetitions under
    any uncheck, and under a check of a label it does not hold. *)
Theorem handler_keeps_NoDup (s : list string) (checked : bool) (l : string) :
  NoDup s → (checked = true → l ∉ s) →
  NoDup (changeHandler setSelected s checked l).
Proof.
  intros Hnd Hl. unfold changeHandler, setSelected. destruct checked.
  - apply NoDup_app. split_and!; [done| |apply NoDup_singleton].
    intros x Hx ->%list_elem_of_singleton. by apply Hl.
  - by apply NoDup_filter.
Qed.

Lemma handler_keeps_NoDup_witness :
  NoDup ["노원학습관"; "종로도서관"] ∧
  (true = true → "강남도서관" ∉ ["노원학습관"; "종로도서관"]) ∧
  NoDup (changeHandler setSelected ["노원학습관"; "종로도서관"] true "강남도서관").
Proof.
  assert (H1 : NoDup ["노원학습관"; "종로도서관"]) by compute_done.
  assert (H2 : true = true → "강남도서관" ∉ ["노원학습관"; "종로도서관"])
    by (intros _; compute_done).
  split_and!; [exact H1 | exact H2 | exact (handler_keeps_NoDup _ _ _ H1 H2)].
Defined.

(** X12.  An uncheck followed by a check of the same label leaves exactly
    one copy of it, as the last entry, however many copies the selection
    held; the other labels occur as often as before. *)
Theorem uncheck_then_check_leaves_one_copy (s : list string) (l : string) :
  let s' := changeHandler setSelected (changeHandler setSelected s false l) true l in
  occurrences l s' = 1 ∧
  last s' = Some l ∧
  ∀ x, x ≠ l → occurrences x s' = occurrences x s.
Proof.
  unfold changeHandler, setSelected. simpl. split_and!.
  - by rewrite occurrences_app, occurrences_filter_eq, occurrences_singleton.
  - apply last_snoc.
  - intros x Hx.
    rewrite occurrences_app, occurrences_filter_ne, occurrences_ne_singleton by done.
    lia.
Qed.

(** ** More on pages of the component *)

Lemma getElementById_NoDup (doc : Document) (j : nat) (e : Element) :
  NoDup (el_id <$> doc) → el_id e ≠ "" → doc !! j = Some e →
  getElementById doc (el_id e) = Some j.
Proof.
  intros Hnd Hne He. apply getElementById_Some. split; [done|].
  exists e. split_and!; [done..|].
  intros j' y Hy Hlt Heq.
  assert (j' = j); [|lia].
  apply (NoDup_lookup (el_id <$> doc) j' j (el_id e)); [done| |].
  - by rewrite list_lookup_fmap, Hy; simpl; rewrite Heq.
  - by rewrite list_lookup_fmap, He.
Qed.

(** With pairwise distinct, non-empty ids, a page is what it shows. *)
Lemma doc_eq_by_shows (d1 d2 : Document) :
  el_id <$> d1 = el_id <$> d2 → NoDup (el_id <$> d1) → "" ∉ el_id <$> d1 →
  (∀ x, shows d1 x = shows d2 x) → d1 = d2.
Proof.
  intros Hids Hnd Hne Hshow. apply list_eq. intros j.
  assert (Hj : el_id <$> d1 !! j = el_id <$> d2 !! j)
    by (by rewrite <-!list_lookup_fmap, Hids).
  destruct (d1 !! j) as [e1|] eqn:H1, (d2 !! j) as [e2|] eqn:H2; try done.
  simpl in Hj. injection Hj as Hj.
  assert (Hne1 : el_id e1 ≠ "").
  { intros Heq. apply Hne. rewrite <-Heq.
    apply list_elem_of_fmap. exists e1. split; [done|].
    by apply list_elem_of_lookup_2 in H1. }
  assert (Hs1 : shows d1 (el_id e1) = Some (el_checked e1)).
  { apply shows_Some. exists j, e1. split_and!; [|done..].
    by apply getElementById_NoDup. }
  assert (Hs2 : shows d2 (el_id e2) = Some (el_checked e2)).
  { apply shows_Some. exists j, e2. split_and!; [|done..].
    apply getElementById_NoDup; [by rewrite <-Hids | by rewrite <-Hj | done]. }
  rewrite <-Hj, <-Hshow, Hs1 in Hs2. injection Hs2 as Hc.
  destruct e1, e2; simpl in *. by subst.
Qed.

Lemma clicks_keep_sync (trace : list string) (page : Page) :
  trace ⊆ labels → synced page →
  (∀ l, shows (document page) l = Some true → l ∈ selection page) →
  ∃ page',
    clicks trace page = Done page' ∧ synced page' ∧
    (∀ l, shows (document page') l = Some true → l ∈ selection page') ∧
    (NoDup (selection page) → NoDup (selection page')).
Proof.
  revert page. induction trace as [|l trace IH]; intros page Hin Hsync Hback.
  - by exists page.
  - assert (Hl : l ∈ labels) by (apply Hin; left).
    destruct (click_label_spec page l Hsync Hl)
      as (b & p1 & Hb & Hclick & Hsel1 & Hsync1 & Hshow1).
    assert (Hback1 : ∀ x, shows (document p1) x = Some true → x ∈ selection p1).
    { intros x. rewrite Hshow1, Hsel1. unfold changeHandler, setSelected.
      destruct (decide (x = l)) as [->|Hne].
      - destruct b; simpl; [done|]. intros _. apply elem_of_app. right. left.
      - intros Hx%Hback. destruct b; simpl.
        + by apply list_elem_of_filter.
        + apply elem_of_app. by left. }
    assert (Hnd1 : NoDup (selection page) → NoDup (selection p1)).
    { intros Hnd. rewrite Hsel1. unfold changeHandler, setSelected.
      destruct b; simpl; [by apply NoDup_filter|].
      apply NoDup_app. split_and!; [done| |apply NoDup_singleton].
      intros x Hx ->%list_elem_of_singleton.
      apply Hsync in Hx. congruence. }
    destruct (IH p1) as (page' & Hrun & Hsync' & Hback' & Hnd'); [|done..|].
    { intros x Hx. apply Hin. by right. }
    exists page'. split_and!; [|done..|by intros ?; apply Hnd', Hnd1].
    simpl. by rewrite Hclick.
Qed.

(** X13.  A render with the selection unchanged, on a page on which every
    label of the selection shows checked, ends normally and leaves the page
    exactly as it was. *)
Theorem rerender_same_selection_is_noop (page : Page) :
  synced page → rerender (selection page) (document page) = Done page.
Proof.
  intros [Hids Hsel]. destruct page as [sel doc]; simpl in *.
  by apply rerender_noop.
Qed.

(** The page left by a mount with two labels: the pass runs over both and
    finds both boxes checked. *)
Lemma rerender_same_selection_is_noop_witness :
  synced (left_by (mount ["종로도서관"; "강남도서관"])) ∧
  rerender (selection (left_by (mount ["종로도서관"; "강남도서관"])))
           (document (left_by (mount ["종로도서관"; "강남도서관"])))
  = Done (left_by (mount ["종로도서관"; "강남도서관"])).
Proof.
  assert (H : synced (left_by (mount ["종로도서관"; "강남도서관"]))).
  { apply (mount_Done_synced ["종로도서관"; "강남도서관"]).
    vm_compute. reflexivity. }
  split; [exact H | exact (rerender_same_selection_is_noop _ H)].
Defined.

(** X14.  Two clicks in a row on a checkbox that shows unchecked bring back
    the very same page: the same selection in the same order and the same
    state of every checkbox. *)
Theorem click_twice_restores_page (page : Page) (l : string) :
  synced page → l ∈ labels → shows (document page) l = Some false →
  clicks [l; l] page = Done page.
Proof.
  intros Hsync Hl Hoff.
  destruct (click_label_spec page l Hsync Hl)
    as (b & p1 & Hb & Hc1 & Hs1 & Hsync1 & Hshow1).
  assert (b = false) by congruence. subst b.
  destruct (click_label_spec p1 l Hsync1 Hl)
    as (b1 & p2 & Hb1 & Hc2 & Hs2 & [Hids2 _] & Hshow2).
  rewrite Hshow1, decide_True in Hb1 by done. injection Hb1 as <-.
  simpl. rewrite Hc1, Hc2. f_equal.
  assert (Hl' : l ∉ selection page).
  { intros Hin. apply Hsync in Hin. congruence. }
  destruct Hsync as [Hids _].
  destruct page as [sel doc], p2 as [sel2 doc2]; simpl in *. f_equal.
  - rewrite Hs2, Hs1. unfold changeHandler, setSelected. simpl.
    rewrite filter_app, filter_ne_absent by done.
    rewrite filter_cons_False by (intros ?; done). by rewrite app_nil_r.
  - apply doc_eq_by_shows.
    + congruence.
    + rewrite Hids2. apply labels_NoDup.
    + rewrite Hids2. apply labels_nonempty.
    + intros x. rewrite Hshow2, Hshow1.
      destruct (decide (x = l)) as [->|]; [by rewrite Hoff | done].
Qed.

Lemma click_twice_restores_page_witness :
  synced (mkPage [] (create_elements (inputs (Label [] setSelected)))) ∧
  "강남도서관" ∈ labels ∧
  shows (create_elements (inputs (Label [] setSelected))) "강남도서관" = Some false ∧
  clicks ["강남도서관"; "강남도서관"]
    (mkPage [] (create_elements (inputs (Label [] setSelected))))
  = Done (mkPage [] (create_elements (inputs (Label [] setSelected)))).
Proof.
  assert (H1 : synced (mkPage [] (create_elements (inputs (Label [] setSelected))))).
  { split; [reflexivity|]. intros l Hl. by apply elem_of_nil in Hl. }
  assert (H2 : "강남도서관" ∈ labels) by compute_done.
  assert (H3 : shows (document (mkPage [] (create_elements (inputs (Label [] setSelected)))))
                 "강남도서관" = Some false) by reflexivity.
  split_and!; [exact H1 | exact H2 | exact H3 |].
  exact (click_twice_restores_page _ _ H1 H2 H3).
Defined.

(** X15.  A checkbox that shows checked while its label is not in the
    selection (left over from a selection the parent replaced): the next
    click on it unchecks it and hands the setter the selection unchanged;
    no other checkbox changes. *)
Theorem stale_box_click_only_unchecks (page : Page) (l : string) :
  synced page → l ∈ labels →
  shows (document page) l = Some true → l ∉ selection page →
  ∃ page',
    click_label l page = Done page' ∧
    selection page' = selection page ∧
    shows (document page') l = Some false ∧
    ∀ x, x ≠ l → shows (document page') x = shows (document page) x.
Proof.
  intros Hsync Hl Hon Hout.
  destruct (click_label_spec page l Hsync Hl)
    as (b & p1 & Hb & Hc1 & Hs1 & _ & Hshow1).
  assert (b = true) by congruence. subst b.
  exists p1. split_and!; [done| | |].
  - rewrite Hs1. unfold changeHandler, setSelected. simpl.
    by apply filter_ne_absent.
  - by rewrite Hshow1, decide_True.
  - intros x Hx. by rewrite Hshow1, decide_False.
Qed.

Lemma stale_box_click_only_unchecks_witness :
  synced (mkPage []
    (assign_checked (create_elements (inputs (Label [] setSelected))) 20 true)) ∧
  "종로도서관" ∈ labels ∧
  shows (assign_checked (create_elements (inputs (Label [] setSelected))) 20 true)
    "종로도서관" = Some true ∧
  ("종로도서관" ∉ ([] : list string)) ∧
  ∃ page',
    click_label "종로도서관"
      (mkPage []
         (assign_checked (create_elements (inputs (Label [] setSelected))) 20 true))
    = Done page' ∧
    selection page' = [] ∧
    shows (document page') "종로도서관" = Some false ∧
    ∀ x, x ≠ "종로도서관" →
      shows (document page') x
      = shows (assign_checked (create_elements (inputs (Label [] setSelected))) 20 true) x.
Proof.
  assert (H1 : synced (mkPage []
    (assign_checked (create_elements (inputs (Label [] setSelected))) 20 true))).
  { split; [reflexivity|]. intros l Hl. by apply elem_of_nil in Hl. }
  assert (H2 : "종로도서관" ∈ labels) by compute_done.
  assert (H3 : shows (document (mkPage []
    (assign_checked (create_elements (inputs (Label [] setSelected))) 20 true)))
    "종로도서관" = Some true) by reflexivity.
  assert (H4 : "종로도서관" ∉ selection (mkPage []
    (assign_checked (create_elements (inputs (Label [] setSelected))) 20 true)))
    by apply not_elem_of_nil.
  split_and!; [exact H1 | exact H2 | exact H3 | exact H4 |].
  exact (stale_box_click_only_unchecks _ _ H1 H2 H3 H4).
Defined.

(** X16.  Mounted with any selection of labels that have a checkbox,
    repetitions included, and followed by any clicks on checkboxes of the
    component, the run never throws; at its end the selection holds exactly
    the labels whose checkbox shows checked, all of them labels of the
    component, and it is without repetitions if the initial selection
    was. *)
Theorem session_keeps_selection_in_sync (sel trace : list string) :
  sel ⊆ labels → trace ⊆ labels →
  ∃ page,
    session sel trace = Done page ∧
    (∀ l, l ∈ selection page ↔ shows (document page) l = Some true) ∧
    selection page ⊆ labels ∧
    (NoDup sel → NoDup (selection page)).
Proof.
  intros Hsel Htrace.
  destruct (mount_spec sel Hsel) as (doc & Hrun & Hids & Hshow).
  assert (Hsync : synced (mkPage sel doc)).
  { split; [done|]. simpl. intros l Hl.
    rewrite Hshow by (by apply Hsel). by rewrite bool_decide_eq_true_2. }
  assert (Hback : ∀ l, shows doc l = Some true → l ∈ sel).
  { intros l Hl.
    assert (Hlab : l ∈ labels).
    { rewrite <-Hids. apply shows_elem. by eexists. }
    rewrite (Hshow l Hlab) in Hl. injection Hl as Hl.
    by apply bool_decide_eq_true_1 in Hl. }
  destruct (clicks_keep_sync trace (mkPage sel doc) Htrace Hsync Hback)
    as (page & Hclicks & [Hids' Hsync'] & Hback' & Hnd).
  exists page. split_and!.
  - unfold session. by rewrite Hrun.
  - intros l. split; [apply Hsync' | apply Hback'].
  - intros l Hl. apply Hsync' in Hl.
    rewrite <-Hids'. apply shows_elem. by eexists.
  - exact Hnd.
Qed.

(** A mount with two labels, one of them twice, and three clicks. *)
Lemma session_keeps_selection_in_sync_witness :
  ["종로도서관"; "강남도서관"; "종로도서관"] ⊆ labels ∧
  ["노원학습관"; "종로도서관"; "노원학습관"] ⊆ labels ∧
  ∃ page,
    session ["종로도서관"; "강남도서관"; "종로도서관"]
            ["노원학습관"; "종로도서관"; "노원학습관"] = Done page ∧
    (∀ l, l ∈ selection page ↔ shows (document page) l = Some true) ∧
    selection page ⊆ labels ∧
    (NoDup ["종로도서관"; "강남도서관"; "종로도서관"] → NoDup (selection page)).
Proof.
  assert (H1 : ["종로도서관"; "강남도서관"; "종로도서관"] ⊆ labels) by compute_done.
  assert (H2 : ["노원학습관"; "종로도서관"; "노원학습관"] ⊆ labels) by compute_done.
  split_and!; [exact H1 | exact H2 |].
  exact (session_keeps_selection_in_sync _ _ H1 H2).
Defined.

(** X17.  A click on the checkbox of a label changes nothing about any
    other label: what the other checkboxes show and how often the other
    labels occur in the selection stay the same. *)
Theorem click_changes_one_label (page : Page) (l : string) :
  synced page → l ∈ labels →
  ∃ page',
    click_label l page = Done page' ∧
    ∀ x, x ≠ l →
      shows (document page') x = shows (document page) x ∧
      occurrences x (selection page') = occurrences x (selection page).
Proof.
  intros Hsync Hl.
  destruct (click_label_spec page l Hsync Hl)
    as (b & p1 & _ & Hc1 & Hs1 & _ & Hshow1).
  exists p1. split; [done|]. intros x Hx. split.
  - by rewrite Hshow1, decide_False.
  - rewrite Hs1. unfold changeHandler, setSelected. destruct b; simpl.
    + by apply occurrences_filter_ne.
    + rewrite occurrences_app, occurrences_ne_singleton by done. lia.
Qed.

Lemma click_changes_one_label_witness :
  synced (mkPage [] (create_elements (inputs (Label [] setSelected)))) ∧
  "강남도서관" ∈ labels ∧
  ∃ page',
    click_label "강남도서관"
      (mkPage [] (create_elements (inputs (Label [] setSelected)))) = Done page' ∧
    ∀ x, x ≠ "강남도서관" →
      shows (document page') x
      = shows (create_elements (inputs (Label [] setSelected))) x ∧
      occurrences x (selection page') = occurrences x [].
Proof.
  assert (H1 : synced (mkPage [] (create_elements (inputs (Label [] setSelected))))).
  { split; [reflexivity|]. intros l Hl. by apply elem_of_nil in Hl. }
  assert (H2 : "강남도서관" ∈ labels) by compute_done.
  split_and!; [exact H1 | exact H2 |].
  exact (click_changes_one_label _ _ H1 H2).
Defined.

(** X18.  No two checkboxes of the component share an id, so on a page that
    holds its checkboxes the lookup by id reaches, for each label, the
    checkbox rendered for that label and no other. *)
Theorem lookup_finds_own_checkbox (doc : Document) (l : string) (a : nat) :
  el_id <$> doc = labels →
  (getElementById doc l = Some a ↔ labels !! a = Some l).
Proof.
  intros Hids. split.
  - intros (_ & e & He & Hid & _)%getElementById_Some.
    by rewrite <-Hids, list_lookup_fmap, He; simpl; rewrite Hid.
  - intros Ha. pose proof (list_elem_of_lookup_2 _ _ _ Ha) as Hl.
    rewrite <-Hids, list_lookup_fmap in Ha.
    apply fmap_Some in Ha as (e & He & ->).
    apply getElementById_NoDup; [|by apply label_nonempty|done].
    rewrite Hids. apply labels_NoDup.
Qed.

Lemma lookup_finds_own_checkbox_witness :
  el_id <$> create_elements (inputs (Label [] setSelected)) = labels ∧
  (getElementById (create_elements (inputs (Label [] setSelected))) "종로도서관"
     = Some 20
   ↔ labels !! 20 = Some "종로도서관").
Proof.
  assert (H : el_id <$> create_elements (inputs (Label [] setSelected)) = labels)
    by reflexivity.
  split; [exact H | exact (lookup_finds_own_checkbox _ _ _ H)].
Defined.
